(** * react-timeline-range-slider: interval geometry and overlap validation

    A shallow embedding of the computational core of [src/index.tsx]
    (the typed component: [getTimelineConfig], [getFormattedBlockedIntervals],
    [getNowConfig], [checkIsSelectedIntervalNotValid], [onUpdate] and
    [onChange]; and the same functions of the earlier, untyped component in
    the first half of the file), followed by the properties its
    specification states about it and by further properties of the code.

    Modelling conventions.
    - A [Date] is a valid JavaScript date, identified with its time value:
      an integer number of milliseconds since the epoch ([Z]).
    - Millisecond values handed to the validator are integers ([Z]).
    - A percent is a JavaScript number.  Finite doubles are idealised as
      exact rationals ([Q]); the non-finite results of a division by zero
      ([Infinity], [-Infinity], [NaN]) are kept as they are.
    - [new Date()] reads the wall clock: the clock is explicit state.
    - Calls of the [onUpdateCallback] prop are recorded as the list of
      arguments the callback receives. *)

From Stdlib Require Import ZArith QArith Lqa Lia List String Ascii Bool.
From Stdlib Require Import DecimalString DecimalZ DecimalPos DecimalNat DecimalFacts.
Import ListNotations.

Local Open Scope Z_scope.

(** ** JavaScript numbers *)

Module Num.

Inductive number : Type :=
| Finite (q : Q)
| PosInfinity
| NegInfinity
| NaN.

Definition of_Z (z : Z) : number := Finite (inject_Z z).

Definition neg (x : number) : number :=
  match x with
  | Finite q => Finite (- q)
  | PosInfinity => NegInfinity
  | NegInfinity => PosInfinity
  | NaN => NaN
  end.

(** [scale_inf a i]: the product of the non-zero finite [a] (or the
    quotient of [i] by it) with the infinity [i]; a zero factor gives
    [NaN]. *)
Definition scale_inf (a : Q) (i : number) : number :=
  match (a ?= 0)%Q with
  | Eq => NaN
  | Gt => i
  | Lt => neg i
  end.

(** [x / y].  Zeros are unsigned here, so a zero divisor is [+0]. *)
Definition div (x y : number) : number :=
  match x, y with
  | NaN, _ | _, NaN => NaN
  | Finite a, Finite b =>
      match (b ?= 0)%Q with
      | Eq => scale_inf a PosInfinity
      | _ => Finite (a / b)
      end
  | Finite _, _ => Finite 0
  | _, Finite b => if Qle_bool 0 b then x else neg x
  | _, _ => NaN
  end.

(** [x * y]. *)
Definition mul (x y : number) : number :=
  match x, y with
  | NaN, _ | _, NaN => NaN
  | Finite a, Finite b => Finite (a * b)
  | Finite a, _ => scale_inf a y
  | _, Finite b => scale_inf b x
  | PosInfinity, _ => y
  | NegInfinity, _ => neg y
  end.

(** [x < y] and [x <= y]: false as soon as one side is [NaN]. *)
Definition ltb (x y : number) : bool :=
  match x, y with
  | NaN, _ | _, NaN => false
  | Finite a, Finite b => match (a ?= b)%Q with Lt => true | _ => false end
  | _, PosInfinity => match x with PosInfinity => false | _ => true end
  | NegInfinity, _ => match y with NegInfinity => false | _ => true end
  | _, _ => false
  end.

Definition leb (x y : number) : bool :=
  match x, y with
  | NaN, _ | _, NaN => false
  | Finite a, Finite b => Qle_bool a b
  | _, PosInfinity => true
  | NegInfinity, _ => true
  | _, _ => false
  end.

(** [x === y] on numbers. *)
Definition eqb (x y : number) : bool :=
  match x, y with
  | Finite a, Finite b => Qeq_bool a b
  | PosInfinity, PosInfinity | NegInfinity, NegInfinity => true
  | _, _ => false
  end.

Definition isFinite (x : number) : bool :=
  match x with Finite _ => true | _ => false end.

End Num.

Import Num.

(** ** The date-fns functions the component calls *)

Definition Date : Type := Z.

(** [new Date(ms)] for an integer millisecond value. *)
Definition Date_of_ms (ms : Z) : Date := ms.

Definition differenceInMilliseconds (dateLeft dateRight : Date) : Z :=
  dateLeft - dateRight.

Definition isBefore (date dateToCompare : Date) : bool := date <? dateToCompare.

Definition isAfter (date dateToCompare : Date) : bool := dateToCompare <? date.

Definition millisecondsInMinute : Z := 60000.

Definition addMinutes (date : Date) (amount : Z) : Date :=
  date + amount * millisecondsInMinute.

(** [format(date, "T")]: the millisecond timestamp in decimal. *)
Definition format_T (date : Date) : string :=
  NilZero.string_of_int (Z.to_int date).

(** [Number(s)] on a string; [None] stands for [NaN]. *)
Definition Number (s : string) : option Z :=
  option_map Z.of_int (NilZero.int_of_string s).

(** Template-literal interpolation of an integer and of an array index. *)
Definition string_of_Z (z : Z) : string := NilZero.string_of_int (Z.to_int z).
Definition string_of_index (n : nat) : string :=
  NilZero.string_of_uint (Nat.to_uint n).

(** ** Data of the component *)

(** [type Interval = { id; start; end }] ([end] is a keyword here). *)
Module Interval.
Record t : Type := mk { id : string; start : Date; end_ : Date }.
End Interval.

(** The object [getTimelineConfig] returns: [{ id, percent, value }]. *)
Module Point.
Record t : Type := mk { id : string; percent : number; value : Z }.
End Point.

(** The objects [{ id, source, target }] built by the clipper and by the
    now-marker. *)
Module Track.
Record t : Type := mk { id : string; source : Point.t; target : Point.t }.
End Track.

(** [type UpdateCallbackData = { error; time }]. *)
Record UpdateCallbackData : Type :=
  { error : bool; time : list Date }.

(** The props the core reads.  [onUpdateCallback] tells whether the
    optional callback is supplied. *)
Record TimeRangeProps : Type :=
  { timelineInterval : Date * Date;
    disabledIntervals : option (list Interval.t);
    onUpdateCallback : bool }.

(** ** The coordinate mapper *)

Definition getTimelineConfig (timelineStart : Date) (timelineLength : Z)
    (date : Date) (idPrefix : string) : Point.t :=
  let percent :=
    mul (div (of_Z (differenceInMilliseconds date timelineStart))
             (of_Z timelineLength))
        (of_Z 100) in
  let value := date in
  let id := (idPrefix ++ "-" ++ string_of_Z value)%string in
  {| Point.id := id; Point.percent := percent; Point.value := value |}.

(** ** The clipper *)

(** The body of the [map] callback, for the interval at position [index]. *)
Definition formatBlockedInterval (getConfig : Date -> string -> Point.t)
    (startTime endTime : Date) (index : nat) (interval : Interval.t)
  : Track.t :=
  let start := Interval.start interval in
  let end_ := Interval.end_ interval in
  let start := if isBefore start startTime then startTime else start in
  let end_ := if isAfter end_ endTime then endTime else end_ in
  let source := getConfig start "blocked-start"%string in
  let target := getConfig end_ "blocked-end"%string in
  {| Track.id := ("blocked-track-" ++ string_of_index index)%string;
     Track.source := source; Track.target := target |}.

(** [Array.prototype.map] with the index passed to the callback. *)
Fixpoint mapi_from {A B : Type} (f : nat -> A -> B) (i : nat) (l : list A)
  : list B :=
  match l with
  | [] => []
  | x :: l' => f i x :: mapi_from f (S i) l'
  end.

Definition mapi {A B : Type} (f : nat -> A -> B) (l : list A) : list B :=
  mapi_from f 0%nat l.

(** [None] is the [null] returned for an empty (or absent) list. *)
Definition getFormattedBlockedIntervals (blockedDates : option (list Interval.t))
    (timelineInterval : Date * Date) : option (list Track.t) :=
  let blockedDates := match blockedDates with Some l => l | None => [] end in
  let '(startTime, endTime) := timelineInterval in
  match blockedDates with
  | [] => None
  | _ =>
      let timelineLength := differenceInMilliseconds endTime startTime in
      let getConfig := getTimelineConfig startTime timelineLength in
      Some (mapi (formatBlockedInterval getConfig startTime endTime)
                 blockedDates)
  end.

(** ** The wall clock and the now-marker *)

(** [readings n] is what the [n]-th call of [new Date()] returns;
    [samples] counts the calls made so far. *)
Record Clock : Type := { readings : nat -> Date; samples : nat }.

Definition M (A : Type) : Type := Clock -> A * Clock.

Definition ret {A : Type} (a : A) : M A := fun c => (a, c).

Definition bind {A B : Type} (m : M A) (k : A -> M B) : M B :=
  fun c => let '(a, c') := m c in k a c'.

Notation "x <- m ;; k" := (bind m (fun x => k))
  (at level 61, m at next level, right associativity).

(** [new Date()]. *)
Definition new_Date : M Date :=
  fun c => (readings c (samples c),
            {| readings := readings c; samples := S (samples c) |}).

Definition getNowConfig (timelineInterval : Date * Date) : M Track.t :=
  let '(startTime, endTime) := timelineInterval in
  let timelineLength := differenceInMilliseconds endTime startTime in
  let getConfig := getTimelineConfig startTime timelineLength in
  d1 <- new_Date ;;
  let source := getConfig d1 "now-start"%string in
  d2 <- new_Date ;;
  let target := getConfig (addMinutes d2 1) "now-end"%string in
  ret {| Track.id := "now-track"%string;
         Track.source := source; Track.target := target |}.

(** ** The overlap validator *)

Definition checkIsSelectedIntervalNotValid (selection : Z * Z)
    (source target : Point.t) : bool :=
  let '(start, end_) := selection in
  let startInterval := Point.value source in
  let endInterval := Point.value target in
  if ((startInterval >? start) && (endInterval <=? end_))
     || ((startInterval >=? start) && (endInterval <? end_))
  then true
  else if (start >=? startInterval) && (end_ <=? endInterval) then true
  else
    let isStartInBlockedInterval :=
      (start >? startInterval) && (start <? endInterval)
      && (end_ >=? endInterval) in
    let isEndInBlockedInterval :=
      (end_ <? endInterval) && (end_ >? startInterval)
      && (start <=? startInterval) in
    isStartInBlockedInterval || isEndInBlockedInterval.

(** ** The update handler *)

(** [this.disabledIntervals]. *)
Definition get_disabledIntervals (props : TimeRangeProps)
  : option (list Track.t) :=
  getFormattedBlockedIntervals (disabledIntervals props)
                               (timelineInterval props).

(** [onUpdate newTime]: the calls made to [onUpdateCallback], in order.
    An index of [newTime] that is out of range reads [undefined], and every
    comparison of the validator with [undefined] is false. *)
Definition onUpdate (props : TimeRangeProps) (newTime : list Z)
  : list UpdateCallbackData :=
  let disabledIntervals := get_disabledIntervals props in
  if negb (onUpdateCallback props) then []
  else
    match disabledIntervals with
    | Some ((_ :: _) as tracks) =>
        let isValuesNotValid :=
          match nth_error newTime 0, nth_error newTime 1 with
          | Some t0, Some t1 =>
              existsb (fun tr => checkIsSelectedIntervalNotValid (t0, t1)
                                   (Track.source tr) (Track.target tr))
                      tracks
          | _, _ => false
          end in
        let formattedNewTime := map Date_of_ms newTime in
        [ {| error := isValuesNotValid; time := formattedNewTime |} ]
    | _ =>
        let formattedNewTime := map Date_of_ms newTime in
        [ {| error := false; time := formattedNewTime |} ]
    end.

(** ** Completions *)

(** The error kinds of the specification's taxonomy.  No statement of the
    component throws either of them. *)
Inductive Error : Type := DegenerateWindowError | InvalidIntervalError.

Inductive completion (A : Type) : Type :=
| Normal (a : A)
| Throw (e : Error).
Arguments Normal {A} a.
Arguments Throw {A} e.

(** Evaluating a call of the mapper.  Its body has no [throw], and
    [differenceInMilliseconds] and [format] return on every valid date:
    the call completes normally. *)
Definition call_getTimelineConfig (timelineStart : Date) (timelineLength : Z)
    (date : Date) (idPrefix : string) : completion Point.t :=
  Normal (getTimelineConfig timelineStart timelineLength date idPrefix).

(** The mapper as the clipper and the now-marker set it up for a window. *)
Definition map_point (window : Date * Date) (point : Date) (idPrefix : string)
  : completion Point.t :=
  let '(startTime, endTime) := window in
  call_getTimelineConfig startTime (differenceInMilliseconds endTime startTime)
                         point idPrefix.


(** ** The change handler *)

(** [onChange newTime]: the calls made to the optional [onChangeCallback]
    (the flag tells whether it is supplied).  The callback receives the
    pair [[formattedNewTime[0], formattedNewTime[1]]]; an index out of
    range reads [undefined], here [None]. *)
Definition onChange (onChangeCallback : bool) (newTime : list Z)
  : list (option Date * option Date) :=
  let formattedNewTime := map Date_of_ms newTime in
  if onChangeCallback
  then [ (nth_error formattedNewTime 0, nth_error formattedNewTime 1) ]
  else [].

(** The [blockedDates = []] default of the clipper's first parameter. *)
Definition blockedDates_or_default (blockedDates : option (list Interval.t))
  : list Interval.t :=
  match blockedDates with Some l => l | None => [] end.

(** What [onUpdate] asks about one blocked interval: the validator on the
    selection and the two ends of the interval as the clipper maps them
    (start clamped from below, end clamped from above). *)
Definition conflicts (startTime endTime : Date) (selection : Z * Z)
    (interval : Interval.t) : bool :=
  let getConfig :=
    getTimelineConfig startTime (differenceInMilliseconds endTime startTime) in
  checkIsSelectedIntervalNotValid selection
    (getConfig (Z.max (Interval.start interval) startTime) "blocked-start"%string)
    (getConfig (Z.min (Interval.end_ interval) endTime) "blocked-end"%string).

(** ** The earlier, untyped component

    The first half of [src/index.tsx] holds the component as it was before
    ids were added to the mapped points.  Its [timelineInterval] prop is
    optional; the getters read it from the props as they are, so an omitted
    prop reaches the array destructuring of the clipper's second parameter
    as [undefined], which throws a [TypeError]. *)

Module Legacy.

Inductive JsError : Type := TypeError.

Inductive outcome (A : Type) : Type :=
| Returns (a : A)
| Throws (e : JsError).
Arguments Returns {A} a.
Arguments Throws {A} e.

(** [type Interval = { start; end }]. *)
Module Interval.
Record t : Type := mk { start : Date; end_ : Date }.
End Interval.

(** [{ percent, value }]. *)
Module Point.
Record t : Type := mk { percent : number; value : Z }.
End Point.

Module Track.
Record t : Type := mk { id : string; source : Point.t; target : Point.t }.
End Track.

(** [None] is a prop that is not passed.  A [timelineInterval] that is
    passed is an array of two valid dates. *)
Record TimeRangeProps : Type :=
  { timelineInterval : option (Date * Date);
    disabledIntervals : option (list Interval.t);
    onUpdateCallback : bool;
    onChangeCallback : bool }.

Definition getTimelineConfig (timelineStart : Date) (timelineLength : Z)
    (date : Date) : Point.t :=
  let percent :=
    mul (div (of_Z (differenceInMilliseconds date timelineStart))
             (of_Z timelineLength))
        (of_Z 100) in
  let value := date in
  {| Point.percent := percent; Point.value := value |}.

Definition formatBlockedInterval (getConfig : Date -> Point.t)
    (startTime endTime : Date) (index : nat) (interval : Interval.t)
  : Track.t :=
  let start := Interval.start interval in
  let end_ := Interval.end_ interval in
  let start := if isBefore start startTime then startTime else start in
  let end_ := if isAfter end_ endTime then endTime else end_ in
  let source := getConfig start in
  let target := getConfig end_ in
  {| Track.id := ("blocked-track-" ++ string_of_index index)%string;
     Track.source := source; Track.target := target |}.

(** The parameters are bound before the body runs: destructuring an
    [undefined] second argument throws, also for an empty list. *)
Definition getFormattedBlockedIntervals
    (blockedDates : option (list Interval.t))
    (timelineInterval : option (Date * Date))
  : outcome (option (list Track.t)) :=
  let blockedDates := match blockedDates with Some l => l | None => [] end in
  match timelineInterval with
  | None => Throws TypeError
  | Some (startTime, endTime) =>
      match blockedDates with
      | [] => Returns None
      | _ =>
          let timelineLength := differenceInMilliseconds endTime startTime in
          let getConfig := getTimelineConfig startTime timelineLength in
          Returns
            (Some (mapi (formatBlockedInterval getConfig startTime endTime)
                        blockedDates))
      end
  end.

(** The selection is the [newTime] array itself, destructured as
    [[start, end]]; a missing entry is [undefined], and every comparison
    with [undefined] is false. *)
Definition checkIsSelectedIntervalNotValid (selection : list Z)
    (source target : Point.t) : bool :=
  match nth_error selection 0, nth_error selection 1 with
  | Some start, Some end_ =>
      let startInterval := Point.value source in
      let endInterval := Point.value target in
      if ((startInterval >? start) && (endInterval <=? end_))
         || ((startInterval >=? start) && (endInterval <? end_))
      then true
      else if (start >=? startInterval) && (end_ <=? endInterval) then true
      else
        let isStartInBlockedInterval :=
          (start >? startInterval) && (start <? endInterval)
          && (end_ >=? endInterval) in
        let isEndInBlockedInterval :=
          (end_ <? endInterval) && (end_ >? startInterval)
          && (start <=? startInterval) in
        isStartInBlockedInterval || isEndInBlockedInterval
  | _, _ => false
  end.

(** [onUpdate newTime]: the getter is evaluated first, so its exception
    leaves the handler before the callback is looked at. *)
Definition onUpdate (props : TimeRangeProps) (newTime : list Z)
  : outcome (list UpdateCallbackData) :=
  match getFormattedBlockedIntervals (disabledIntervals props)
                                     (timelineInterval props) with
  | Throws e => Throws e
  | Returns disabledIntervals =>
      if negb (onUpdateCallback props) then Returns []
      else
        match disabledIntervals with
        | Some ((_ :: _) as tracks) =>
            let isValuesNotValid :=
              existsb (fun tr => checkIsSelectedIntervalNotValid newTime
                                   (Track.source tr) (Track.target tr))
                      tracks in
            let formattedNewTime := map Date_of_ms newTime in
            Returns [ {| error := isValuesNotValid;
                         time := formattedNewTime |} ]
        | _ =>
            let formattedNewTime := map Date_of_ms newTime in
            Returns [ {| error := false; time := formattedNewTime |} ]
        end
  end.

(** [onChange newTime] hands the whole converted array to the callback. *)
Definition onChange (props : TimeRangeProps) (newTime : list Z)
  : list (list Date) :=
  let formattedNewTime := map Date_of_ms newTime in
  if onChangeCallback props then [ formattedNewTime ] else [].

End Legacy.

(** Forgetting what the typed component added: the ids of intervals and of
    mapped points. *)
Definition legacy_interval (interval : Interval.t) : Legacy.Interval.t :=
  {| Legacy.Interval.start := Interval.start interval;
     Legacy.Interval.end_ := Interval.end_ interval |}.

Definition legacy_point (p : Point.t) : Legacy.Point.t :=
  {| Legacy.Point.percent := Point.percent p;
     Legacy.Point.value := Point.value p |}.

Definition legacy_track (tr : Track.t) : Legacy.Track.t :=
  {| Legacy.Track.id := Track.id tr;
     Legacy.Track.source := legacy_point (Track.source tr);
     Legacy.Track.target := legacy_point (Track.target tr) |}.

Definition legacy_props (props : TimeRangeProps) (onChangeCallback : bool)
  : Legacy.TimeRangeProps :=
  {| Legacy.timelineInterval := Some (timelineInterval props);
     Legacy.disabledIntervals :=
       option_map (map legacy_interval) (disabledIntervals props);
     Legacy.onUpdateCallback := onUpdateCallback props;
     Legacy.onChangeCallback := onChangeCallback |}.

(** ** Inputs used in the examples below *)

(** A clock that advances by one millisecond between two readings. *)
Definition ticking (t0 : Z) : Clock :=
  {| readings := fun n => t0 + Z.of_nat n; samples := 0 |}.

Definition window_0_100 : Date * Date := (0, 100).

(** A blocked interval that starts after [window_0_100] has ended. *)
Definition late_interval : Interval.t :=
  Interval.mk "late" 200 300.

(** A blocked interval that ends before [window_0_100] starts. *)
Definition early_interval : Interval.t :=
  Interval.mk "early" (-300) (-200).

Definition point_at (v : Z) : Point.t :=
  getTimelineConfig 0 100 v "blocked".

(** * Properties *)

(** ** Numbers and dates *)

Lemma Qcompare_inject_Z (x y : Z) : (inject_Z x ?= inject_Z y)%Q = (x ?= y).
Proof. unfold Qcompare; cbn. now rewrite !Z.mul_1_r. Qed.

Lemma ltb_Finite (a b : Q) : ltb (Finite a) (Finite b) = true <-> (a < b)%Q.
Proof.
  cbn. rewrite Qlt_alt. destruct (a ?= b)%Q; split; congruence.
Qed.

Lemma leb_Finite (a b : Q) : leb (Finite a) (Finite b) = true <-> (a <= b)%Q.
Proof. apply Qle_bool_iff. Qed.

(** [Number(format(date, "T"))] reads back the time value of [date]: this
    is the [value] field the mapper stores. *)
Lemma Number_format_T (date : Date) : Number (format_T date) = Some date.
Proof.
  unfold Number, format_T.
  rewrite NilZero.isi.
  - cbn. now rewrite DecimalZ.of_to.
  - destruct date; cbn; try discriminate.
    intros [= H]. now apply (DecimalPos.Unsigned.to_uint_nonnil p).
  - destruct date; cbn; try discriminate.
    intros [= H]. now apply (DecimalPos.Unsigned.to_uint_nonnil p).
Qed.

Lemma value_is_Number_format (timelineStart : Date) (timelineLength : Z)
    (date : Date) (idPrefix : string) :
  Number (format_T date)
  = Some (Point.value
            (getTimelineConfig timelineStart timelineLength date idPrefix)).
Proof. apply Number_format_T. Qed.

Lemma scaled_ratio_lt (x y len : Z) :
  0 < len -> x < y ->
  (inject_Z x / inject_Z len * inject_Z 100
   < inject_Z y / inject_Z len * inject_Z 100)%Q.
Proof.
  intros Hlen Hxy.
  apply Qmult_lt_compat_r; [reflexivity|].
  apply Qmult_lt_compat_r.
  - apply Qinv_lt_0_compat. change 0%Q with (inject_Z 0).
    rewrite <- Zlt_Qlt. exact Hlen.
  - rewrite <- Zlt_Qlt. exact Hxy.
Qed.

Lemma scaled_ratio_bounds (x len : Z) :
  0 < len -> 0 <= x <= len ->
  (0 <= inject_Z x / inject_Z len * inject_Z 100 <= inject_Z 100)%Q.
Proof.
  intros Hlen [H0 H1].
  destruct len as [|p|p]; try lia.
  unfold Qle, Qdiv, Qmult, Qinv, inject_Z; cbn.
  split; nia.
Qed.

(** ** The coordinate mapper *)

Lemma value_getTimelineConfig (timelineStart : Date) (timelineLength : Z)
    (date : Date) (idPrefix : string) :
  Point.value (getTimelineConfig timelineStart timelineLength date idPrefix)
  = date.
Proof. reflexivity. Qed.

Lemma percent_nonzero_length (timelineStart : Date) (timelineLength : Z)
    (date : Date) (idPrefix : string) :
  timelineLength <> 0 ->
  Point.percent (getTimelineConfig timelineStart timelineLength date idPrefix)
  = Finite (inject_Z (date - timelineStart) / inject_Z timelineLength
            * inject_Z 100).
Proof.
  intros Hlen. unfold getTimelineConfig, differenceInMilliseconds, of_Z; cbn.
  change 0%Q with (inject_Z 0). rewrite Qcompare_inject_Z.
  destruct (Z.compare_spec timelineLength 0); [contradiction | reflexivity ..].
Qed.

Lemma percent_zero_length (timelineStart date : Date) (idPrefix : string) :
  Point.percent (getTimelineConfig timelineStart 0 date idPrefix)
  = match date ?= timelineStart with
    | Eq => NaN
    | Gt => PosInfinity
    | Lt => NegInfinity
    end.
Proof.
  unfold getTimelineConfig, differenceInMilliseconds, of_Z, div, scale_inf.
  cbn -[Qcompare inject_Z Z.sub].
  change 0%Q with (inject_Z 0). rewrite !Qcompare_inject_Z.
  rewrite Z.compare_refl, <- Z.compare_sub.
  now destruct (date ?= timelineStart).
Qed.

(** C9: for a window of positive length and timestamps [a < b], the percent
    the mapper gives to [a] is strictly below the one it gives to [b]
    (percents as exact rationals). *)
Theorem percent_strictly_monotone :
  forall (startTime endTime a b : Date) (prefix_a prefix_b : string),
    startTime < endTime ->
    a < b ->
    let getConfig :=
      getTimelineConfig startTime (differenceInMilliseconds endTime startTime) in
    ltb (Point.percent (getConfig a prefix_a))
        (Point.percent (getConfig b prefix_b)) = true.
Proof.
  intros startTime endTime a b pa pb Hwin Hab getConfig. subst getConfig.
  unfold differenceInMilliseconds.
  rewrite !percent_nonzero_length by lia.
  apply ltb_Finite, scaled_ratio_lt; lia.
Qed.

Lemma percent_strictly_monotone_witness :
  0 < 100 /\ 25 < 75
  /\ ltb (Point.percent (getTimelineConfig 0 (differenceInMilliseconds 100 0)
                                           25 "a"))
         (Point.percent (getTimelineConfig 0 (differenceInMilliseconds 100 0)
                                           75 "b")) = true.
Proof.
  split; [lia | split; [lia |]].
  apply (percent_strictly_monotone 0 100 25 75 "a" "b"); lia.
Defined.

(** C5, as the specification states it, fails on a window of length zero:
    the mapper returns a point whose percent is [Infinity]; nothing is
    thrown. *)
Lemma degenerate_window_returns :
  differenceInMilliseconds 5 5 <= 0
  /\ map_point (5, 5) 7 "p"
     = Normal {| Point.id := "p-7"; Point.percent := PosInfinity;
                 Point.value := 7 |}
  /\ map_point (5, 5) 7 "p" <> Throw DegenerateWindowError.
Proof.
  split; [cbv; discriminate | split; [reflexivity | discriminate]].
Qed.

(** C5 (amended): whatever the length of the window, positive or not, the
    mapper throws nothing and returns a point carrying the timestamp.  For
    a length of zero the percent is not finite ([NaN] at the window start,
    [Infinity] after it, [-Infinity] before it); for any other length,
    negative ones included, it is the finite
    [(point - start) / length * 100]. *)
Theorem mapper_never_throws :
  forall (window : Date * Date) (point : Date) (idPrefix : string),
    let startTime := fst window in
    let length := differenceInMilliseconds (snd window) startTime in
    exists p : Point.t,
      map_point window point idPrefix = Normal p
      /\ Point.value p = point
      /\ (length = 0 ->
          Point.percent p = match point ?= startTime with
                            | Eq => NaN
                            | Gt => PosInfinity
                            | Lt => NegInfinity
                            end)
      /\ (length <> 0 ->
          Point.percent p
          = Finite (inject_Z (point - startTime) / inject_Z length
                    * inject_Z 100)).
Proof.
  intros [startTime endTime] point idPrefix; cbn [fst snd].
  eexists. split; [reflexivity|]. split; [reflexivity|]. split.
  - intros ->. apply percent_zero_length.
  - intros Hlen. now apply percent_nonzero_length.
Qed.

(** ** The clipper *)

Section Clipper.

Variables startTime endTime : Date.
Variable index : nat.
Variable interval : Interval.t.

Let track : Track.t :=
  formatBlockedInterval
    (getTimelineConfig startTime
                       (differenceInMilliseconds endTime startTime))
    startTime endTime index interval.

(** The start is clamped from below only, the end from above only. *)
Lemma clipped_source_value :
  Point.value (Track.source track)
  = Z.max (Interval.start interval) startTime.
Proof.
  subst track; cbn. unfold isBefore.
  destruct (Z.ltb_spec (Interval.start interval) startTime); lia.
Qed.

Lemma clipped_target_value :
  Point.value (Track.target track)
  = Z.min (Interval.end_ interval) endTime.
Proof.
  subst track; cbn. unfold isAfter.
  destruct (Z.ltb_spec endTime (Interval.end_ interval)); lia.
Qed.

Hypothesis window_ok : startTime < endTime.

Lemma clipped_source_percent :
  Point.percent (Track.source track)
  = Finite (inject_Z (Z.max (Interval.start interval) startTime - startTime)
            / inject_Z (endTime - startTime) * inject_Z 100).
Proof.
  rewrite <- clipped_source_value. subst track.
  unfold formatBlockedInterval, differenceInMilliseconds; cbn [Track.source].
  rewrite percent_nonzero_length by lia. reflexivity.
Qed.

Lemma clipped_target_percent :
  Point.percent (Track.target track)
  = Finite (inject_Z (Z.min (Interval.end_ interval) endTime - startTime)
            / inject_Z (endTime - startTime) * inject_Z 100).
Proof.
  rewrite <- clipped_target_value. subst track.
  unfold formatBlockedInterval, differenceInMilliseconds; cbn [Track.target].
  rewrite percent_nonzero_length by lia. reflexivity.
Qed.

(** An interval that meets the window is clipped into it: both percents
    are within [0, 100] and the two values are in order. *)
Hypothesis starts_in_time : Interval.start interval <= endTime.
Hypothesis ends_in_time : startTime <= Interval.end_ interval.

Lemma meeting_interval_percents_bounded :
  leb (of_Z 0) (Point.percent (Track.source track)) = true
  /\ leb (Point.percent (Track.source track)) (of_Z 100) = true
  /\ leb (of_Z 0) (Point.percent (Track.target track)) = true
  /\ leb (Point.percent (Track.target track)) (of_Z 100) = true.
Proof.
  rewrite clipped_source_percent, clipped_target_percent.
  unfold of_Z. rewrite !leb_Finite.
  pose proof (scaled_ratio_bounds
                (Z.max (Interval.start interval) startTime - startTime)
                (endTime - startTime)) as Hs.
  pose proof (scaled_ratio_bounds
                (Z.min (Interval.end_ interval) endTime - startTime)
                (endTime - startTime)) as Ht.
  destruct Hs; [lia | lia |]. destruct Ht; [lia | lia |]. tauto.
Qed.

Lemma meeting_interval_values_ordered :
  Interval.start interval <= Interval.end_ interval ->
  Point.value (Track.source track) <= Point.value (Track.target track).
Proof.
  rewrite clipped_source_value, clipped_target_value. lia.
Qed.

End Clipper.

Lemma mapi_from_length {A B : Type} (f : nat -> A -> B) (l : list A) :
  forall i, List.length (mapi_from f i l) = List.length l.
Proof.
  induction l as [|x l IH]; intros i; cbn; [reflexivity|].
  now rewrite IH.
Qed.

(** A non-empty list yields one track per interval, in order. *)
Lemma getFormattedBlockedIntervals_length (blocked : list Interval.t)
    (window : Date * Date) :
  blocked <> [] ->
  exists tracks,
    getFormattedBlockedIntervals (Some blocked) window = Some tracks
    /\ List.length tracks = List.length blocked.
Proof.
  destruct window as [s e]. destruct blocked as [|b l]; [congruence|].
  intros _. eexists. split; [reflexivity|]. apply mapi_from_length.
Qed.

(** C2 fails on the code: for the window [0, 100] and the blocked interval
    [200, 300], which starts after the window has ended, the clipper leaves
    the start where it is and the source percent is 200; for [-300, -200],
    which ends before the window starts, the target percent is -200. *)
Theorem clipped_percent_outside_0_100 :
  (exists tr,
      getFormattedBlockedIntervals (Some [late_interval]) window_0_100
      = Some [tr]
      /\ eqb (Point.percent (Track.source tr)) (of_Z 200) = true
      /\ leb (Point.percent (Track.source tr)) (of_Z 100) = false)
  /\ (exists tr,
         getFormattedBlockedIntervals (Some [early_interval]) window_0_100
         = Some [tr]
         /\ eqb (Point.percent (Track.target tr)) (of_Z (-200)) = true
         /\ leb (of_Z 0) (Point.percent (Track.target tr)) = false).
Proof.
  split; eexists; (split; [reflexivity | split; reflexivity]).
Qed.

(** C3 fails on the code: for the window [0, 100] and the well-formed
    blocked interval [200, 300] the emitted track has source value 200 and
    target value 100; for [-300, -200] it has source value 0 and target
    value -200. *)
Theorem clipped_values_out_of_order :
  Interval.start late_interval <= Interval.end_ late_interval
  /\ Interval.start early_interval <= Interval.end_ early_interval
  /\ fst window_0_100 < snd window_0_100
  /\ (exists tr,
         getFormattedBlockedIntervals (Some [late_interval]) window_0_100
         = Some [tr]
         /\ Point.value (Track.source tr) = 200
         /\ Point.value (Track.target tr) = 100)
  /\ (exists tr,
         getFormattedBlockedIntervals (Some [early_interval]) window_0_100
         = Some [tr]
         /\ Point.value (Track.source tr) = 0
         /\ Point.value (Track.target tr) = -200).
Proof.
  repeat (split; [cbv; congruence |]).
  split; eexists; (split; [reflexivity | split; reflexivity]).
Qed.

(** C4 fails on the code: a track is emitted for a blocked interval that
    lies entirely outside the window, but its two ends do not collapse.
    For the window [0, 100], the interval [200, 300] gives percents 200 and
    100, and the interval [-300, -200] gives percents 0 and -200. *)
Theorem outside_interval_does_not_collapse :
  (snd window_0_100 <= Interval.start late_interval
   /\ exists tr,
       getFormattedBlockedIntervals (Some [late_interval]) window_0_100
       = Some [tr]
       /\ eqb (Point.percent (Track.source tr)) (of_Z 200) = true
       /\ eqb (Point.percent (Track.target tr)) (of_Z 100) = true
       /\ eqb (Point.percent (Track.source tr))
              (Point.percent (Track.target tr)) = false)
  /\ (Interval.end_ early_interval <= fst window_0_100
      /\ exists tr,
          getFormattedBlockedIntervals (Some [early_interval]) window_0_100
          = Some [tr]
          /\ eqb (Point.percent (Track.source tr)) (of_Z 0) = true
          /\ eqb (Point.percent (Track.target tr)) (of_Z (-200)) = true
          /\ eqb (Point.percent (Track.source tr))
                 (Point.percent (Track.target tr)) = false).
Proof.
  split; (split; [cbv; congruence |]); eexists;
    (split; [reflexivity | repeat split; reflexivity]).
Qed.

(** ** The now-marker *)

(** C8, as the specification states it, fails when the clock advances
    between the two readings: on a window of one day and a clock that ticks
    once per reading, two readings are taken, the source value is 43200000
    and the target value is 43260001, one millisecond more than a minute
    later. *)
Lemma now_marker_resamples_clock :
  let clock := ticking 43200000 in
  let result := getNowConfig (0, 86400000) clock in
  samples (snd result) = (samples clock + 2)%nat
  /\ samples (snd result) <> (samples clock + 1)%nat
  /\ Point.value (Track.source (fst result)) = 43200000
  /\ Point.value (Track.target (fst result)) = 43260001
  /\ Point.value (Track.target (fst result))
     <> Point.value (Track.source (fst result)) + 60000.
Proof.
  cbn. repeat split; (reflexivity || discriminate).
Qed.

(** C8 (amended): every call of [getNowConfig] reads the wall clock twice,
    once for the source and once more for the target.  The source value is
    the first reading and the target value is the second reading plus one
    minute, so the target value exceeds the source value by 60000
    milliseconds plus the time elapsed between the two readings. *)
Theorem now_marker_reads_clock_twice :
  forall (timelineInterval : Date * Date) (clock : Clock),
    let result := getNowConfig timelineInterval clock in
    let first := readings clock (samples clock) in
    let second := readings clock (S (samples clock)) in
    samples (snd result) = S (S (samples clock))
    /\ Point.value (Track.source (fst result)) = first
    /\ Point.value (Track.target (fst result)) = second + 60000
    /\ Point.value (Track.target (fst result))
       - Point.value (Track.source (fst result))
       = 60000 + (second - first).
Proof.
  intros [startTime endTime] clock; cbn -[Z.add Z.sub Z.mul].
  unfold addMinutes, millisecondsInMinute.
  repeat split; lia.
Qed.

(** ** The overlap validator *)

Lemma if_true_orb (a b : bool) : (if a then true else b) = a || b.
Proof. now destruct a. Qed.

(** The two early returns and the final disjunction, as one expression. *)
Lemma validator_as_disjunction (start end_ : Z) (source target : Point.t) :
  checkIsSelectedIntervalNotValid (start, end_) source target
  = ((Point.value source >? start) && (Point.value target <=? end_)
     || (Point.value source >=? start) && (Point.value target <? end_))
    || ((start >=? Point.value source) && (end_ <=? Point.value target)
        || ((start >? Point.value source) && (start <? Point.value target)
            && (end_ >=? Point.value target)
            || (end_ <? Point.value target) && (end_ >? Point.value source)
               && (start <=? Point.value source))).
Proof.
  unfold checkIsSelectedIntervalNotValid; cbv zeta.
  now rewrite !if_true_orb.
Qed.

Ltac reflect_cmp :=
  rewrite ?orb_true_iff, ?andb_true_iff, ?orb_false_iff, ?andb_false_iff,
    ?Z.gtb_ltb, ?Z.geb_leb, ?Z.ltb_lt, ?Z.leb_le, ?Z.ltb_ge, ?Z.leb_gt.

(** C1: for a selection [start <= end] and a blocked interval with values
    [blockedStart] and [blockedEnd], the validator returns true exactly
    when one of the four conditions holds, and false otherwise. *)
Theorem validator_iff_four_conditions :
  forall (start end_ : Z) (source target : Point.t),
    start <= end_ ->
    let blockedStart := Point.value source in
    let blockedEnd := Point.value target in
    let conditions :=
      ((blockedStart > start /\ blockedEnd <= end_)
       \/ (blockedStart >= start /\ blockedEnd < end_))
      \/ (start >= blockedStart /\ end_ <= blockedEnd)
      \/ (start > blockedStart /\ start < blockedEnd /\ end_ >= blockedEnd)
      \/ (end_ < blockedEnd /\ end_ > blockedStart /\ start <= blockedStart) in
    (checkIsSelectedIntervalNotValid (start, end_) source target = true
     <-> conditions)
    /\ (checkIsSelectedIntervalNotValid (start, end_) source target = false
        <-> ~ conditions).
Proof.
  intros start end_ source target _ bs be conditions.
  assert (Htrue : checkIsSelectedIntervalNotValid (start, end_) source target
                  = true <-> conditions).
  { rewrite validator_as_disjunction. subst conditions bs be.
    reflect_cmp. lia. }
  split; [exact Htrue|].
  rewrite <- Htrue. now destruct (checkIsSelectedIntervalNotValid _ _ _).
Qed.

Lemma validator_iff_four_conditions_witness :
  30 <= 60
  /\ checkIsSelectedIntervalNotValid (30, 60) (point_at 40) (point_at 50)
     = true.
Proof.
  split; [lia|].
  apply (proj1 (validator_iff_four_conditions
                  30 60 (point_at 40) (point_at 50) ltac:(lia))).
  cbv [point_at getTimelineConfig Point.value]. lia.
Defined.

(** C6: a selection [S1, S2] contained in (or equal to) the blocked
    interval [B1, B2] is reported invalid. *)
Theorem contained_selection_is_invalid :
  forall (S1 S2 : Z) (source target : Point.t),
    let B1 := Point.value source in
    let B2 := Point.value target in
    B1 <= S1 -> S1 <= S2 -> S2 <= B2 ->
    checkIsSelectedIntervalNotValid (S1, S2) source target = true.
Proof.
  intros S1 S2 source target B1 B2 H1 H2 H3. subst B1 B2.
  rewrite validator_as_disjunction. reflect_cmp. lia.
Qed.

Lemma contained_selection_is_invalid_witness :
  40 <= 42 /\ 42 <= 45 /\ 45 <= 50
  /\ checkIsSelectedIntervalNotValid (42, 45) (point_at 40) (point_at 50)
     = true.
Proof.
  repeat (split; [lia|]).
  apply (contained_selection_is_invalid 42 45 (point_at 40) (point_at 50));
    cbv [point_at getTimelineConfig Point.value]; lia.
Defined.

(** C10: a non-degenerate selection that only touches a non-degenerate
    blocked interval at one boundary point (it ends where the interval
    begins, or begins where the interval ends) is reported valid. *)
Theorem abutting_selection_is_valid :
  forall (start end_ : Z) (source target : Point.t),
    let blockedStart := Point.value source in
    let blockedEnd := Point.value target in
    start < end_ ->
    blockedStart < blockedEnd ->
    end_ = blockedStart \/ start = blockedEnd ->
    checkIsSelectedIntervalNotValid (start, end_) source target = false.
Proof.
  intros start end_ source target bs be Hs Hb Habut. subst bs be.
  rewrite validator_as_disjunction. reflect_cmp. lia.
Qed.

Lemma abutting_selection_is_valid_witness :
  20 < 40 /\ 40 < 50 /\ (40 = 40 \/ 20 = 50)
  /\ checkIsSelectedIntervalNotValid (20, 40) (point_at 40) (point_at 50)
     = false.
Proof.
  repeat (split; [lia|]).
  apply (abutting_selection_is_valid 20 40 (point_at 40) (point_at 50));
    cbv [point_at getTimelineConfig Point.value]; lia.
Defined.

(** ** The update handler *)

Lemma no_tracks_for_empty_list (props : TimeRangeProps) :
  disabledIntervals props = None \/ disabledIntervals props = Some [] ->
  get_disabledIntervals props = None.
Proof.
  unfold get_disabledIntervals, getFormattedBlockedIntervals.
  destruct (timelineInterval props) as [s e].
  now intros [-> | ->].
Qed.

(** C7: with an update callback supplied and an empty (or absent) list of
    blocked intervals, an update makes exactly one call of the callback,
    with [error] false and [time] the converted input timestamps. *)
Theorem update_without_blocked_intervals :
  forall (props : TimeRangeProps) (newTime : list Z),
    onUpdateCallback props = true ->
    disabledIntervals props = None \/ disabledIntervals props = Some [] ->
    onUpdate props newTime
    = [ {| error := false; time := map Date_of_ms newTime |} ].
Proof.
  intros props newTime Hcb Hempty. unfold onUpdate.
  rewrite Hcb, (no_tracks_for_empty_list props Hempty). reflexivity.
Qed.

Lemma update_without_blocked_intervals_witness :
  let props := {| timelineInterval := window_0_100;
                  disabledIntervals := Some [];
                  onUpdateCallback := true |} in
  onUpdateCallback props = true
  /\ (disabledIntervals props = None \/ disabledIntervals props = Some [])
  /\ onUpdate props [30; 60]
     = [ {| error := false; time := [Date_of_ms 30; Date_of_ms 60] |} ].
Proof.
  cbv zeta. split; [reflexivity | split; [right; reflexivity |]].
  apply (update_without_blocked_intervals
           {| timelineInterval := window_0_100;
              disabledIntervals := Some [];
              onUpdateCallback := true |} [30; 60]);
    [reflexivity | right; reflexivity].
Defined.

(** * Further properties of the code *)

(** ** Arithmetic of percents *)

Lemma scaled_ratio_sign (x len : Z) :
  0 < len ->
  ((0 <= inject_Z x / inject_Z len * inject_Z 100)%Q <-> 0 <= x)
  /\ ((inject_Z x / inject_Z len * inject_Z 100 <= inject_Z 100)%Q
      <-> x <= len).
Proof.
  intros Hlen. destruct len as [|p|p]; try lia.
  unfold Qle, Qdiv, Qmult, Qinv, inject_Z; cbn.
  split; split; nia.
Qed.

Lemma scaled_ratio_le (x y len : Z) :
  0 < len -> x <= y ->
  (inject_Z x / inject_Z len * inject_Z 100
   <= inject_Z y / inject_Z len * inject_Z 100)%Q.
Proof.
  intros Hlen Hxy. destruct len as [|p|p]; try lia.
  unfold Qle, Qdiv, Qmult, Qinv, inject_Z; cbn. nia.
Qed.

Lemma scaled_ratio_ends (len : Z) :
  0 < len ->
  (inject_Z 0 / inject_Z len * inject_Z 100 == inject_Z 0)%Q
  /\ (inject_Z len / inject_Z len * inject_Z 100 == inject_Z 100)%Q.
Proof.
  intros Hlen. destruct len as [|p|p]; try lia.
  unfold Qeq, Qdiv, Qmult, Qinv, inject_Z; cbn. split; nia.
Qed.

Lemma eqb_Finite (a b : Q) : eqb (Finite a) (Finite b) = true <-> (a == b)%Q.
Proof. apply Qeq_bool_iff. Qed.


(** ** The coordinate mapper, continued *)

(** X1: in a window of positive length the window start maps to percent 0
    and the window end to percent 100. *)
Theorem percent_at_window_ends :
  forall (startTime endTime : Date) (idPrefix : string),
    startTime < endTime ->
    let getConfig :=
      getTimelineConfig startTime (differenceInMilliseconds endTime startTime) in
    eqb (Point.percent (getConfig startTime idPrefix)) (of_Z 0) = true
    /\ eqb (Point.percent (getConfig endTime idPrefix)) (of_Z 100) = true.
Proof.
  intros startTime endTime idPrefix Hwin getConfig. subst getConfig.
  unfold differenceInMilliseconds.
  rewrite !percent_nonzero_length by lia. unfold of_Z.
  rewrite !eqb_Finite, Z.sub_diag.
  apply scaled_ratio_ends. lia.
Qed.

Lemma percent_at_window_ends_witness :
  1704067200000 < 1704153600000
  /\ eqb (Point.percent
            (getTimelineConfig 1704067200000
               (differenceInMilliseconds 1704153600000 1704067200000)
               1704153600000 "blocked-end"))
         (of_Z 100) = true.
Proof.
  split; [lia|].
  apply (percent_at_window_ends 1704067200000 1704153600000 "blocked-end").
  lia.
Defined.



(** *** Ids *)

Lemma append_cancel_l (p x y : string) :
  (p ++ x)%string = (p ++ y)%string -> x = y.
Proof.
  induction p as [|c p IH]; cbn; [trivial|].
  intros [= H]. now apply IH.
Qed.

Lemma string_of_Z_inj (a b : Z) : string_of_Z a = string_of_Z b -> a = b.
Proof.
  intros H.
  assert (Hn : Number (format_T a) = Number (format_T b))
    by (unfold format_T; unfold string_of_Z in H; now rewrite H).
  rewrite !Number_format_T in Hn. now injection Hn.
Qed.

Lemma to_uint_nonnil (n : nat) : Nat.to_uint n <> Decimal.Nil.
Proof.
  rewrite <- (DecimalNat.Unsigned.of_to n) at 1.
  rewrite DecimalNat.Unsigned.to_of. apply DecimalFacts.unorm_nonnil.
Qed.

Lemma string_of_index_inj (i j : nat) :
  string_of_index i = string_of_index j -> i = j.
Proof.
  unfold string_of_index. intros H.
  assert (Hu : NilZero.uint_of_string (NilZero.string_of_uint (Nat.to_uint i))
               = NilZero.uint_of_string
                   (NilZero.string_of_uint (Nat.to_uint j)))
    by now rewrite H.
  rewrite !NilZero.usu in Hu by apply to_uint_nonnil.
  injection Hu as Hu.
  rewrite <- (DecimalNat.Unsigned.of_to i), <- (DecimalNat.Unsigned.of_to j).
  now rewrite Hu.
Qed.

(** X3: under one prefix the id of a mapped point determines its date:
    two different dates never get the same id. *)
Theorem point_id_injective :
  forall (start1 start2 : Date) (len1 len2 : Z) (date1 date2 : Date)
         (idPrefix : string),
    date1 <> date2 ->
    Point.id (getTimelineConfig start1 len1 date1 idPrefix)
    <> Point.id (getTimelineConfig start2 len2 date2 idPrefix).
Proof.
  intros start1 start2 len1 len2 date1 date2 idPrefix Hneq Hid.
  cbn in Hid. apply append_cancel_l in Hid.
  injection Hid as Hid. now apply string_of_Z_inj in Hid.
Qed.

Lemma point_id_injective_witness :
  36000000 <> 39600000
  /\ Point.id (getTimelineConfig 0 86400000 36000000 "blocked-start")
     <> Point.id (getTimelineConfig 0 86400000 39600000 "blocked-start").
Proof.
  split; [lia|].
  apply (point_id_injective 0 0 86400000 86400000 36000000 39600000
                            "blocked-start").
  lia.
Defined.

(** ** The clipper, continued *)

Lemma nth_error_mapi_from {A B : Type} (f : nat -> A -> B) (l : list A) :
  forall i j,
    nth_error (mapi_from f i l) j = option_map (f (i + j)%nat) (nth_error l j).
Proof.
  induction l as [|x l IH]; intros i j.
  - now destruct j.
  - destruct j as [|j]; cbn.
    + now rewrite Nat.add_0_r.
    + rewrite IH. now rewrite Nat.add_succ_r.
Qed.

Lemma Forall_mapi_from {A B : Type} (f : nat -> A -> B) (Q : A -> Prop)
    (P : B -> Prop) (l : list A) :
  (forall j x, Q x -> P (f j x)) ->
  Forall Q l -> forall i, Forall P (mapi_from f i l).
Proof.
  intros HPQ HQ. induction HQ as [|x l Hx _ IH]; intros i; cbn.
  - constructor.
  - constructor; [now apply HPQ | apply IH].
Qed.

Lemma Forall_True {A : Type} (l : list A) : Forall (fun _ => True) l.
Proof. induction l; now constructor. Qed.

(** What a non-null result of the clipper is. *)
Lemma clipper_some (blocked : option (list Interval.t))
    (startTime endTime : Date) (tracks : list Track.t) :
  getFormattedBlockedIntervals blocked (startTime, endTime) = Some tracks ->
  blockedDates_or_default blocked <> []
  /\ tracks
     = mapi (formatBlockedInterval
               (getTimelineConfig startTime
                  (differenceInMilliseconds endTime startTime))
               startTime endTime)
            (blockedDates_or_default blocked).
Proof.
  unfold getFormattedBlockedIntervals, blockedDates_or_default.
  destruct (match blocked with Some l => l | None => [] end) as [|b l];
    [discriminate|].
  intros [= <-]. split; [discriminate | reflexivity].
Qed.

(** X4: the two ends of a track never share an id, even when they are the
    same instant: in every track of the clipper, and in the now-marker, the
    id of the source differs from the id of the target. *)
Theorem endpoint_ids_never_collide :
  forall (blocked : option (list Interval.t)) (window : Date * Date)
         (clock : Clock),
    (forall tracks,
        getFormattedBlockedIntervals blocked window = Some tracks ->
        Forall (fun tr => Point.id (Track.source tr)
                          <> Point.id (Track.target tr)) tracks)
    /\ (let now := fst (getNowConfig window clock) in
        Point.id (Track.source now) <> Point.id (Track.target now)).
Proof.
  intros blocked [startTime endTime] clock. split.
  - intros tracks Hsome. apply clipper_some in Hsome as [_ ->].
    apply (Forall_mapi_from _ (fun _ => True)); [|apply Forall_True].
    intros j iv _. cbn. discriminate.
  - cbn. discriminate.
Qed.

Lemma In_blocked_track_ids {A : Type} (f : nat -> A -> Track.t) (l : list A) :
  (forall j x, Track.id (f j x)
               = ("blocked-track-" ++ string_of_index j)%string) ->
  forall i s,
    In s (map Track.id (mapi_from f i l)) ->
    exists j, (i <= j)%nat
              /\ s = ("blocked-track-" ++ string_of_index j)%string.
Proof.
  intros Hid. induction l as [|x l IH]; intros i s; cbn; [tauto|].
  intros [<- | Hin].
  - exists i. split; [lia | apply Hid].
  - apply IH in Hin as [j [Hj ->]]. exists j. split; [lia | reflexivity].
Qed.

(** X5: the ids of the tracks the clipper returns are pairwise
    different. *)
Theorem blocked_track_ids_distinct :
  forall (blocked : option (list Interval.t)) (window : Date * Date)
         (tracks : list Track.t),
    getFormattedBlockedIntervals blocked window = Some tracks ->
    NoDup (map Track.id tracks).
Proof.
  intros blocked [startTime endTime] tracks Hsome.
  apply clipper_some in Hsome as [_ ->]. unfold mapi.
  generalize 0%nat as i.
  induction (blockedDates_or_default blocked) as [|x l IH]; intros i; cbn.
  - constructor.
  - constructor; [|apply IH].
    intros Hin.
    apply In_blocked_track_ids in Hin as [j [Hj Heq]]; [|reflexivity].
    assert (Hij : string_of_index i = string_of_index j)
      by (apply (append_cancel_l "blocked-track-"); exact Heq).
    apply string_of_index_inj in Hij. lia.
Qed.

Lemma blocked_track_ids_distinct_witness :
  getFormattedBlockedIntervals (Some [late_interval; early_interval])
                               window_0_100
  = Some (mapi (formatBlockedInterval (getTimelineConfig 0 100) 0 100)
               [late_interval; early_interval])
  /\ NoDup (map Track.id
                (mapi (formatBlockedInterval (getTimelineConfig 0 100) 0 100)
                      [late_interval; early_interval])).
Proof.
  split; [reflexivity|].
  apply (blocked_track_ids_distinct (Some [late_interval; early_interval])
                                    window_0_100).
  reflexivity.
Defined.

(** X6: the clipper returns [null] exactly when the list of blocked
    intervals is empty or absent; otherwise it returns a non-empty array
    with one track per interval. *)
Theorem clipper_null_iff_no_intervals :
  forall (blocked : option (list Interval.t)) (window : Date * Date),
    (getFormattedBlockedIntervals blocked window = None
     <-> blockedDates_or_default blocked = [])
    /\ (forall tracks,
           getFormattedBlockedIntervals blocked window = Some tracks ->
           tracks <> []
           /\ List.length tracks
              = List.length (blockedDates_or_default blocked)).
Proof.
  intros blocked [startTime endTime]. split.
  - unfold getFormattedBlockedIntervals, blockedDates_or_default.
    destruct (match blocked with Some l => l | None => [] end);
      split; (reflexivity || discriminate).
  - intros tracks Hsome. apply clipper_some in Hsome as [Hne ->].
    unfold mapi.
    assert (Hlen := mapi_from_length
                      (formatBlockedInterval
                         (getTimelineConfig startTime
                            (differenceInMilliseconds endTime startTime))
                         startTime endTime)
                      (blockedDates_or_default blocked) 0%nat).
    split; [|exact Hlen].
    intros Hnil. rewrite Hnil in Hlen.
    destruct (blockedDates_or_default blocked); [congruence | discriminate].
Qed.

(** X7: the clipper keeps the order of its input.  The interval at
    position [i] yields the track at position [i]; its id is
    ["blocked-track-" ++ i], its source value is the later of the interval
    start and the window start, and its target value is the earlier of the
    interval end and the window end. *)
Theorem clipper_keeps_order :
  forall (blocked : option (list Interval.t)) (startTime endTime : Date)
         (tracks : list Track.t) (i : nat) (interval : Interval.t),
    getFormattedBlockedIntervals blocked (startTime, endTime) = Some tracks ->
    nth_error (blockedDates_or_default blocked) i = Some interval ->
    exists tr,
      nth_error tracks i = Some tr
      /\ Track.id tr = ("blocked-track-" ++ string_of_index i)%string
      /\ Point.value (Track.source tr)
         = Z.max (Interval.start interval) startTime
      /\ Point.value (Track.target tr)
         = Z.min (Interval.end_ interval) endTime.
Proof.
  intros blocked startTime endTime tracks i interval Hsome Hnth.
  apply clipper_some in Hsome as [_ ->]. unfold mapi.
  rewrite nth_error_mapi_from, Hnth. cbn [option_map Nat.add].
  eexists. split; [reflexivity|]. split; [reflexivity|].
  split; [apply clipped_source_value | apply clipped_target_value].
Qed.

Lemma clipper_keeps_order_witness :
  getFormattedBlockedIntervals (Some [late_interval; early_interval]) (0, 100)
  = Some (mapi (formatBlockedInterval (getTimelineConfig 0 100) 0 100)
               [late_interval; early_interval])
  /\ nth_error (blockedDates_or_default (Some [late_interval; early_interval]))
               1 = Some early_interval
  /\ exists tr,
      nth_error (mapi (formatBlockedInterval (getTimelineConfig 0 100) 0 100)
                      [late_interval; early_interval]) 1 = Some tr
      /\ Track.id tr = ("blocked-track-" ++ string_of_index 1)%string
      /\ Point.value (Track.source tr)
         = Z.max (Interval.start early_interval) 0
      /\ Point.value (Track.target tr)
         = Z.min (Interval.end_ early_interval) 100.
Proof.
  split; [reflexivity | split; [reflexivity|]].
  apply (clipper_keeps_order (Some [late_interval; early_interval]) 0 100 _ 1
                             early_interval); reflexivity.
Defined.

Lemma map_mapi_from {A B C : Type} (f : nat -> A -> B) (g : B -> C)
    (h : A -> C) (l : list A) :
  Forall (fun x => forall j, g (f j x) = h x) l ->
  forall i, map g (mapi_from f i l) = map h l.
Proof.
  intros H. induction H as [|x l Hx _ IH]; intros i; cbn; [reflexivity|].
  now rewrite Hx, IH.
Qed.

(** X8: clipping leaves an interval that lies within the window as it is:
    when every blocked interval is within the window, the source and
    target values of the tracks are the starts and ends of the intervals,
    in the same order. *)
Theorem clip_inside_window_unchanged :
  forall (blocked : list Interval.t) (startTime endTime : Date)
         (tracks : list Track.t),
    Forall (fun iv => startTime <= Interval.start iv
                      /\ Interval.end_ iv <= endTime) blocked ->
    getFormattedBlockedIntervals (Some blocked) (startTime, endTime)
    = Some tracks ->
    map (fun tr => (Point.value (Track.source tr),
                    Point.value (Track.target tr))) tracks
    = map (fun iv => (Interval.start iv, Interval.end_ iv)) blocked.
Proof.
  intros blocked startTime endTime tracks Hin Hsome.
  apply clipper_some in Hsome as [_ ->]. cbn [blockedDates_or_default].
  apply map_mapi_from.
  eapply Forall_impl; [|exact Hin].
  intros iv [Hs He] j.
  rewrite clipped_source_value, clipped_target_value.
  now rewrite Z.max_l, Z.min_l by lia.
Qed.

Lemma clip_inside_window_unchanged_witness :
  let blocked := [Interval.mk "a" 10 20; Interval.mk "b" 0 100] in
  let tracks :=
    mapi (formatBlockedInterval (getTimelineConfig 0 100) 0 100) blocked in
  Forall (fun iv => 0 <= Interval.start iv /\ Interval.end_ iv <= 100) blocked
  /\ getFormattedBlockedIntervals (Some blocked) (0, 100) = Some tracks
  /\ map (fun tr => (Point.value (Track.source tr),
                     Point.value (Track.target tr))) tracks
     = [(10, 20); (0, 100)].
Proof.
  cbv zeta.
  assert (Hin : Forall (fun iv => 0 <= Interval.start iv
                                  /\ Interval.end_ iv <= 100)
                       [Interval.mk "a" 10 20; Interval.mk "b" 0 100])
    by (repeat constructor; cbn; lia).
  split; [exact Hin | split; [reflexivity|]].
  apply (clip_inside_window_unchanged
           [Interval.mk "a" 10 20; Interval.mk "b" 0 100] 0 100 _ Hin).
  reflexivity.
Defined.

(** X9: what the two clamps guarantee for every blocked interval, wherever
    it lies: in a window of positive length the source of a track is never
    before the window start (percent at least 0) and its target is never
    after the window end (percent at most 100). *)
Theorem clipper_one_sided_bounds :
  forall (blocked : option (list Interval.t)) (startTime endTime : Date)
         (tracks : list Track.t),
    startTime < endTime ->
    getFormattedBlockedIntervals blocked (startTime, endTime) = Some tracks ->
    Forall (fun tr =>
              startTime <= Point.value (Track.source tr)
              /\ Point.value (Track.target tr) <= endTime
              /\ leb (of_Z 0) (Point.percent (Track.source tr)) = true
              /\ leb (Point.percent (Track.target tr)) (of_Z 100) = true)
           tracks.
Proof.
  intros blocked startTime endTime tracks Hwin Hsome.
  apply clipper_some in Hsome as [_ ->].
  apply (Forall_mapi_from _ (fun _ => True)); [|apply Forall_True].
  intros j iv _.
  rewrite clipped_source_value, clipped_target_value.
  rewrite clipped_source_percent, clipped_target_percent by exact Hwin.
  unfold of_Z. rewrite !leb_Finite.
  repeat split; try lia.
  - apply (scaled_ratio_sign _ (endTime - startTime)); lia.
  - apply (scaled_ratio_sign _ (endTime - startTime)); lia.
Qed.

Lemma clipper_one_sided_bounds_witness :
  0 < 100
  /\ getFormattedBlockedIntervals (Some [late_interval]) (0, 100)
     = Some (mapi (formatBlockedInterval (getTimelineConfig 0 100) 0 100)
                  [late_interval])
  /\ Forall (fun tr =>
               0 <= Point.value (Track.source tr)
               /\ Point.value (Track.target tr) <= 100
               /\ leb (of_Z 0) (Point.percent (Track.source tr)) = true
               /\ leb (Point.percent (Track.target tr)) (of_Z 100) = true)
            (mapi (formatBlockedInterval (getTimelineConfig 0 100) 0 100)
                  [late_interval]).
Proof.
  split; [lia | split; [reflexivity|]].
  apply (clipper_one_sided_bounds (Some [late_interval]) 0 100);
    [lia | reflexivity].
Defined.

(** X10: blocked intervals that meet the window are clipped into it.  When
    every interval is well formed, starts no later than the window ends and
    ends no earlier than the window starts, every track has both percents
    in [0, 100], its source value at most its target value, and its source
    percent at most its target percent. *)
Theorem meeting_intervals_clipped_into_window :
  forall (blocked : list Interval.t) (startTime endTime : Date)
         (tracks : list Track.t),
    startTime < endTime ->
    Forall (fun iv => Interval.start iv <= Interval.end_ iv
                      /\ Interval.start iv <= endTime
                      /\ startTime <= Interval.end_ iv) blocked ->
    getFormattedBlockedIntervals (Some blocked) (startTime, endTime)
    = Some tracks ->
    Forall (fun tr =>
              leb (of_Z 0) (Point.percent (Track.source tr)) = true
              /\ leb (Point.percent (Track.source tr)) (of_Z 100) = true
              /\ leb (of_Z 0) (Point.percent (Track.target tr)) = true
              /\ leb (Point.percent (Track.target tr)) (of_Z 100) = true
              /\ Point.value (Track.source tr) <= Point.value (Track.target tr)
              /\ leb (Point.percent (Track.source tr))
                     (Point.percent (Track.target tr)) = true)
           tracks.
Proof.
  intros blocked startTime endTime tracks Hwin Hmeet Hsome.
  apply clipper_some in Hsome as [_ ->]. cbn [blockedDates_or_default].
  eapply Forall_mapi_from; [|exact Hmeet].
  intros j iv (Hwf & Hs & He); cbv beta.
  rewrite clipped_source_value, clipped_target_value.
  rewrite clipped_source_percent, clipped_target_percent by exact Hwin.
  unfold of_Z. rewrite !leb_Finite.
  pose proof (scaled_ratio_sign
                (Z.max (Interval.start iv) startTime - startTime)
                (endTime - startTime)) as [Hs0 Hs1]; [lia|].
  pose proof (scaled_ratio_sign
                (Z.min (Interval.end_ iv) endTime - startTime)
                (endTime - startTime)) as [Ht0 Ht1]; [lia|].
  repeat split.
  - apply Hs0; lia.
  - apply Hs1; lia.
  - apply Ht0; lia.
  - apply Ht1; lia.
  - lia.
  - apply scaled_ratio_le; lia.
Qed.

Lemma meeting_intervals_clipped_into_window_witness :
  let blocked := [Interval.mk "a" (-50) 20; Interval.mk "b" 80 300] in
  let tracks :=
    mapi (formatBlockedInterval (getTimelineConfig 0 100) 0 100) blocked in
  0 < 100
  /\ getFormattedBlockedIntervals (Some blocked) (0, 100) = Some tracks
  /\ Forall (fun tr =>
               Point.value (Track.source tr) <= Point.value (Track.target tr))
            tracks.
Proof.
  cbv zeta. split; [lia | split; [reflexivity|]].
  eapply Forall_impl;
    [| apply (meeting_intervals_clipped_into_window
                [Interval.mk "a" (-50) 20; Interval.mk "b" 80 300] 0 100);
       [lia | repeat constructor; cbn; lia | reflexivity]].
  intros tr H. apply H.
Defined.

(** ** The now-marker, continued *)

(** X11: on a clock that does not run backwards, and in a window of
    positive length, the now-marker is at least one minute wide and its
    source percent is strictly below its target percent. *)
Theorem now_marker_is_ordered :
  forall (startTime endTime : Date) (clock : Clock),
    startTime < endTime ->
    readings clock (samples clock) <= readings clock (S (samples clock)) ->
    let now := fst (getNowConfig (startTime, endTime) clock) in
    Point.value (Track.source now) + 60000 <= Point.value (Track.target now)
    /\ ltb (Point.percent (Track.source now))
           (Point.percent (Track.target now)) = true.
Proof.
  intros startTime endTime clock Hwin Hclock now. subst now.
  cbn -[Z.add Z.sub Z.mul getTimelineConfig].
  split.
  - rewrite !value_getTimelineConfig.
    unfold addMinutes, millisecondsInMinute. lia.
  - unfold differenceInMilliseconds.
    rewrite !percent_nonzero_length by lia.
    apply ltb_Finite, scaled_ratio_lt; [lia|].
    unfold addMinutes, millisecondsInMinute. lia.
Qed.

Lemma now_marker_is_ordered_witness :
  0 < 86400000
  /\ readings (ticking 43200000) (samples (ticking 43200000))
     <= readings (ticking 43200000) (S (samples (ticking 43200000)))
  /\ ltb (Point.percent
            (Track.source
               (fst (getNowConfig (0, 86400000) (ticking 43200000)))))
         (Point.percent
            (Track.target
               (fst (getNowConfig (0, 86400000) (ticking 43200000)))))
     = true.
Proof.
  split; [lia | split; [cbn; lia|]].
  apply (now_marker_is_ordered 0 86400000 (ticking 43200000));
    [lia | cbn; lia].
Defined.




(** ** The overlap validator, continued *)

(** The validator reads only the two values; its verdict in terms of them. *)
Lemma validator_true_iff (start end_ : Z) (source target : Point.t) :
  checkIsSelectedIntervalNotValid (start, end_) source target = true
  <-> ((start < Point.value source /\ Point.value target <= end_)
       \/ (start <= Point.value source /\ Point.value target < end_))
      \/ (Point.value source <= start /\ end_ <= Point.value target)
      \/ (Point.value source < start /\ start < Point.value target
          /\ Point.value target <= end_)
      \/ (end_ < Point.value target /\ Point.value source < end_
          /\ start <= Point.value source).
Proof.
  rewrite validator_as_disjunction. reflect_cmp. lia.
Qed.

(** X13: for a non-degenerate selection and a non-degenerate blocked
    interval the validator reports a conflict exactly when the two overlap
    in more than a boundary point: the selection starts before the blocked
    interval ends and ends after it starts. *)
Theorem validator_is_open_overlap :
  forall (start end_ : Z) (source target : Point.t),
    start < end_ ->
    Point.value source < Point.value target ->
    (checkIsSelectedIntervalNotValid (start, end_) source target = true
     <-> start < Point.value target /\ Point.value source < end_).
Proof.
  intros start end_ source target Hs Hb.
  rewrite validator_true_iff. lia.
Qed.

Lemma validator_is_open_overlap_witness :
  37800000 < 43200000
  /\ Point.value (getTimelineConfig 0 86400000 36000000 "blocked-start")
     < Point.value (getTimelineConfig 0 86400000 39600000 "blocked-end")
  /\ checkIsSelectedIntervalNotValid (37800000, 43200000)
       (getTimelineConfig 0 86400000 36000000 "blocked-start")
       (getTimelineConfig 0 86400000 39600000 "blocked-end") = true.
Proof.
  split; [lia | split; [cbn; lia|]].
  apply (validator_is_open_overlap 37800000 43200000
           (getTimelineConfig 0 86400000 36000000 "blocked-start")
           (getTimelineConfig 0 86400000 39600000 "blocked-end"));
    cbn; lia.
Defined.

(** X14: the verdict of the validator on any ordered selection and ordered
    blocked interval.  It is true exactly when the two overlap in more than
    a boundary point, or the blocked interval is a single instant within
    the (closed) selection, or the selection is a single instant within the
    (closed) blocked interval. *)
Theorem validator_closed_form :
  forall (start end_ : Z) (source target : Point.t),
    let blockedStart := Point.value source in
    let blockedEnd := Point.value target in
    start <= end_ ->
    blockedStart <= blockedEnd ->
    (checkIsSelectedIntervalNotValid (start, end_) source target = true
     <-> (start < blockedEnd /\ blockedStart < end_)
         \/ (blockedStart = blockedEnd
             /\ start <= blockedStart /\ blockedStart <= end_)
         \/ (start = end_
             /\ blockedStart <= start /\ start <= blockedEnd)).
Proof.
  intros start end_ source target bs be Hs Hb. subst bs be.
  rewrite validator_true_iff. lia.
Qed.

Lemma validator_closed_form_witness :
  20 <= 40
  /\ Point.value (point_at 40) <= Point.value (point_at 40)
  /\ checkIsSelectedIntervalNotValid (20, 40) (point_at 40) (point_at 40)
     = true.
Proof.
  split; [lia | split; [cbn; lia|]].
  apply (validator_closed_form 20 40 (point_at 40) (point_at 40));
    cbv [point_at getTimelineConfig Point.value]; lia.
Defined.

(** X15: the validator treats the two directions of time alike: mirroring
    the selection and the blocked interval (negating the four values and
    swapping the roles of start and end) does not change its verdict. *)
Theorem validator_mirror_symmetric :
  forall (start end_ : Z) (source target source' target' : Point.t),
    Point.value source' = - Point.value target ->
    Point.value target' = - Point.value source ->
    checkIsSelectedIntervalNotValid (- end_, - start) source' target'
    = checkIsSelectedIntervalNotValid (start, end_) source target.
Proof.
  intros start end_ source target source' target' Hs Ht.
  apply eq_true_iff_eq. rewrite !validator_true_iff, Hs, Ht. lia.
Qed.

Lemma validator_mirror_symmetric_witness :
  Point.value (point_at (-50)) = - Point.value (point_at 50)
  /\ Point.value (point_at (-40)) = - Point.value (point_at 40)
  /\ checkIsSelectedIntervalNotValid (- 40, - 20)
                                     (point_at (-50)) (point_at (-40))
     = checkIsSelectedIntervalNotValid (20, 40) (point_at 40) (point_at 50).
Proof.
  split; [reflexivity | split; [reflexivity|]].
  apply (validator_mirror_symmetric 20 40 (point_at 40) (point_at 50)
                                    (point_at (-50)) (point_at (-40)));
    reflexivity.
Defined.

(** ** The update handler, continued *)

Lemma existsb_mapi_from {A B : Type} (f : nat -> A -> B) (g : B -> bool)
    (h : A -> bool) (l : list A) :
  (forall j x, g (f j x) = h x) ->
  forall i, existsb g (mapi_from f i l) = existsb h l.
Proof.
  intros Hgh. induction l as [|x l IH]; intros i; cbn; [reflexivity|].
  now rewrite Hgh, IH.
Qed.

Lemma clamp_from_below (start startTime : Date) :
  (if isBefore start startTime then startTime else start)
  = Z.max start startTime.
Proof. unfold isBefore. destruct (Z.ltb_spec start startTime); lia. Qed.

Lemma clamp_from_above (end_ endTime : Date) :
  (if isAfter end_ endTime then endTime else end_) = Z.min end_ endTime.
Proof. unfold isAfter. destruct (Z.ltb_spec endTime end_); lia. Qed.

(** An update with two values, when the callback is supplied. *)
Lemma onUpdate_pair (props : TimeRangeProps) (s e : Z) :
  onUpdateCallback props = true ->
  onUpdate props [s; e]
  = [ {| error :=
           existsb (conflicts (fst (timelineInterval props))
                              (snd (timelineInterval props)) (s, e))
                   (blockedDates_or_default (disabledIntervals props));
         time := [Date_of_ms s; Date_of_ms e] |} ].
Proof.
  intros Hcb. unfold onUpdate, get_disabledIntervals.
  rewrite Hcb; cbn [negb].
  unfold getFormattedBlockedIntervals, blockedDates_or_default.
  destruct (timelineInterval props) as [ws we]; cbn [fst snd].
  destruct (match disabledIntervals props with Some l => l | None => [] end)
    as [|b l] eqn:Hl; [reflexivity|].
  unfold mapi. cbn [mapi_from nth_error map].
  do 2 f_equal.
  change (existsb
            (fun tr => checkIsSelectedIntervalNotValid (s, e)
                         (Track.source tr) (Track.target tr))
            (mapi_from
               (formatBlockedInterval
                  (getTimelineConfig ws (differenceInMilliseconds we ws))
                  ws we) 0 (b :: l))
          = existsb (conflicts ws we (s, e)) (b :: l)).
  apply existsb_mapi_from.
  intros j iv. unfold formatBlockedInterval, conflicts; cbn [Track.source Track.target].
  now rewrite clamp_from_below, clamp_from_above.
Qed.

Lemma conflicts_true_iff (ws we s e : Z) (iv : Interval.t) :
  conflicts ws we (s, e) iv = true
  <-> let bs := Z.max (Interval.start iv) ws in
      let be := Z.min (Interval.end_ iv) we in
      ((s < bs /\ be <= e) \/ (s <= bs /\ be < e))
      \/ (bs <= s /\ e <= be)
      \/ (bs < s /\ s < be /\ be <= e)
      \/ (e < be /\ bs < e /\ s <= bs).
Proof.
  unfold conflicts. rewrite validator_true_iff.
  rewrite !value_getTimelineConfig. reflexivity.
Qed.

(** X16: an update makes at most one call of the callback: none when the
    callback is not supplied, exactly one otherwise, whatever the blocked
    intervals are; the call always carries every input timestamp,
    converted, in order. *)
Theorem update_calls_callback_once :
  forall (props : TimeRangeProps) (newTime : list Z),
    (onUpdateCallback props = false -> onUpdate props newTime = [])
    /\ (onUpdateCallback props = true ->
        exists err,
          onUpdate props newTime
          = [ {| error := err; time := map Date_of_ms newTime |} ]).
Proof.
  intros props newTime. unfold onUpdate. split; intros ->; cbn [negb].
  - reflexivity.
  - destruct (get_disabledIntervals props) as [[|tr tracks]|];
      eexists; reflexivity.
Qed.

(** X17: how the clipper and the validator compose in an update.  With the
    callback supplied, an update to [[s, e]] makes one call, and its error
    flag is true exactly when the validator reports a conflict between
    [[s, e]] and some blocked interval as clipped (start clamped from
    below to the window start, end clamped from above to the window
    end). *)
Theorem update_error_iff_some_interval_conflicts :
  forall (props : TimeRangeProps) (s e : Z),
    onUpdateCallback props = true ->
    let startTime := fst (timelineInterval props) in
    let endTime := snd (timelineInterval props) in
    let getConfig :=
      getTimelineConfig startTime
                        (differenceInMilliseconds endTime startTime) in
    exists err,
      onUpdate props [s; e]
      = [ {| error := err; time := [Date_of_ms s; Date_of_ms e] |} ]
      /\ (err = true
          <-> exists iv,
              In iv (blockedDates_or_default (disabledIntervals props))
              /\ checkIsSelectedIntervalNotValid (s, e)
                   (getConfig (Z.max (Interval.start iv) startTime)
                              "blocked-start"%string)
                   (getConfig (Z.min (Interval.end_ iv) endTime)
                              "blocked-end"%string) = true).
Proof.
  intros props s e Hcb startTime endTime getConfig.
  eexists. split; [apply onUpdate_pair, Hcb|].
  apply existsb_exists.
Qed.

Lemma update_error_iff_some_interval_conflicts_witness :
  let props := {| timelineInterval := (0, 86400000);
                  disabledIntervals :=
                    Some [Interval.mk "lunch" 36000000 39600000];
                  onUpdateCallback := true |} in
  onUpdateCallback props = true
  /\ exists err,
      onUpdate props [37800000; 38700000]
      = [ {| error := err;
             time := [Date_of_ms 37800000; Date_of_ms 38700000] |} ]
      /\ err = true.
Proof.
  cbv zeta. split; [reflexivity|].
  destruct (update_error_iff_some_interval_conflicts
              {| timelineInterval := (0, 86400000);
                 disabledIntervals :=
                   Some [Interval.mk "lunch" 36000000 39600000];
                 onUpdateCallback := true |} 37800000 38700000 eq_refl)
    as [err [Hcall Herr]].
  exists err. split; [exact Hcall|].
  apply Herr. eexists. split; [left; reflexivity | reflexivity].
Defined.

(** X18: what an update decides for a selection within the window.  Let
    the window contain the non-degenerate selection [[s, e]], and let every
    blocked interval be non-degenerate and reach into the window (it
    starts before the window ends and ends after the window starts).  Then
    the error flag is true exactly when the selection overlaps some blocked
    interval in more than a boundary point; clipping does not change the
    verdict. *)
Theorem update_error_iff_selection_overlaps :
  forall (props : TimeRangeProps) (s e : Z),
    onUpdateCallback props = true ->
    let startTime := fst (timelineInterval props) in
    let endTime := snd (timelineInterval props) in
    let blocked := blockedDates_or_default (disabledIntervals props) in
    startTime <= s -> s < e -> e <= endTime ->
    Forall (fun iv => Interval.start iv < Interval.end_ iv
                      /\ Interval.start iv < endTime
                      /\ startTime < Interval.end_ iv) blocked ->
    exists err,
      onUpdate props [s; e]
      = [ {| error := err; time := [Date_of_ms s; Date_of_ms e] |} ]
      /\ (err = true
          <-> exists iv, In iv blocked
                         /\ s < Interval.end_ iv /\ Interval.start iv < e).
Proof.
  intros props s e Hcb startTime endTime blocked Hs Hse He Hblocked.
  eexists. split; [apply onUpdate_pair, Hcb|].
  rewrite existsb_exists. fold startTime endTime blocked.
  rewrite Forall_forall in Hblocked.
  split; intros [iv [Hin H]]; exists iv; (split; [exact Hin|]);
    specialize (Hblocked iv Hin); cbv beta in Hblocked.
  - apply conflicts_true_iff in H. cbv zeta in H. lia.
  - apply conflicts_true_iff. cbv zeta. lia.
Qed.

Lemma update_error_iff_selection_overlaps_witness :
  let props := {| timelineInterval := (0, 86400000);
                  disabledIntervals :=
                    Some [Interval.mk "lunch" 36000000 39600000];
                  onUpdateCallback := true |} in
  onUpdateCallback props = true
  /\ 0 <= 32400000 /\ 32400000 < 34200000 /\ 34200000 <= 86400000
  /\ exists err,
      onUpdate props [32400000; 34200000]
      = [ {| error := err;
             time := [Date_of_ms 32400000; Date_of_ms 34200000] |} ]
      /\ err <> true.
Proof.
  cbv zeta. split; [reflexivity | repeat (split; [lia|])].
  destruct (update_error_iff_selection_overlaps
              {| timelineInterval := (0, 86400000);
                 disabledIntervals :=
                   Some [Interval.mk "lunch" 36000000 39600000];
                 onUpdateCallback := true |} 32400000 34200000 eq_refl
              ltac:(cbn; lia) ltac:(lia) ltac:(cbn; lia)
              ltac:(repeat constructor; cbn; lia))
    as [err [Hcall Herr]].
  exists err. split; [exact Hcall|].
  intros Htrue. apply Herr in Htrue as [iv [[<- | []] H]]. cbn in H. lia.
Defined.

(** X19: a blocked interval that lies entirely outside the window still
    takes part in the validation.  For a selection within the window, an
    interval that starts after the window end makes the error flag true as
    soon as the selection ends at the window end, and an interval that ends
    before the window start makes it true as soon as the selection starts
    at the window start. *)
Theorem interval_outside_window_blocks_window_edge :
  forall (props : TimeRangeProps) (s e : Z) (iv : Interval.t),
    onUpdateCallback props = true ->
    let startTime := fst (timelineInterval props) in
    let endTime := snd (timelineInterval props) in
    In iv (blockedDates_or_default (disabledIntervals props)) ->
    Interval.start iv <= Interval.end_ iv ->
    startTime <= s -> s <= e -> e <= endTime ->
    (endTime < Interval.start iv /\ e = endTime)
    \/ (Interval.end_ iv < startTime /\ s = startTime) ->
    onUpdate props [s; e]
    = [ {| error := true; time := [Date_of_ms s; Date_of_ms e] |} ].
Proof.
  intros props s e iv Hcb startTime endTime Hin Hwf Hs Hse He Hout.
  rewrite onUpdate_pair by exact Hcb. do 2 f_equal.
  apply existsb_exists. exists iv. split; [exact Hin|].
  apply conflicts_true_iff. fold startTime endTime. cbv zeta. lia.
Qed.

Lemma interval_outside_window_blocks_window_edge_witness :
  let props := {| timelineInterval := window_0_100;
                  disabledIntervals := Some [late_interval];
                  onUpdateCallback := true |} in
  onUpdateCallback props = true
  /\ In late_interval (blockedDates_or_default (disabledIntervals props))
  /\ Interval.start late_interval <= Interval.end_ late_interval
  /\ onUpdate props [60; 100]
     = [ {| error := true; time := [Date_of_ms 60; Date_of_ms 100] |} ].
Proof.
  cbv zeta.
  split; [reflexivity | split; [left; reflexivity | split; [cbn; lia|]]].
  apply (interval_outside_window_blocks_window_edge
           {| timelineInterval := window_0_100;
              disabledIntervals := Some [late_interval];
              onUpdateCallback := true |} 60 100 late_interval);
    try reflexivity; try (cbn; lia); left; reflexivity.
Defined.

(** X20: blocking more never clears an error.  If an update to [[s, e]]
    reports an error for a list of blocked intervals, it reports an error
    for every list that contains those intervals, in any order: the verdict
    depends on which intervals are blocked, not on their positions. *)
Theorem more_blocked_intervals_keep_error :
  forall (window : Date * Date) (blocked blocked' : list Interval.t)
         (s e : Z) (dates : list Date),
    incl blocked blocked' ->
    onUpdate {| timelineInterval := window;
                disabledIntervals := Some blocked;
                onUpdateCallback := true |} [s; e]
    = [ {| error := true; time := dates |} ] ->
    onUpdate {| timelineInterval := window;
                disabledIntervals := Some blocked';
                onUpdateCallback := true |} [s; e]
    = [ {| error := true; time := dates |} ].
Proof.
  intros window blocked blocked' s e dates Hincl.
  rewrite !onUpdate_pair by reflexivity. cbn [timelineInterval disabledIntervals blockedDates_or_default].
  intros [= Herr <-]. do 2 f_equal.
  apply existsb_exists in Herr as [iv [Hin Hc]].
  apply existsb_exists. exists iv. split; [apply Hincl, Hin | exact Hc].
Qed.

Lemma more_blocked_intervals_keep_error_witness :
  let lunch := Interval.mk "lunch" 40 50 in
  let late := Interval.mk "evening" 80 90 in
  incl [lunch] [late; lunch]
  /\ onUpdate {| timelineInterval := window_0_100;
                 disabledIntervals := Some [late; lunch];
                 onUpdateCallback := true |} [30; 45]
     = [ {| error := true; time := [30; 45] |} ].
Proof.
  cbv zeta.
  assert (Hincl : incl [Interval.mk "lunch" 40 50]
                       [Interval.mk "evening" 80 90;
                        Interval.mk "lunch" 40 50])
    by (intros x [<- | []]; right; left; reflexivity).
  split; [exact Hincl|].
  apply (more_blocked_intervals_keep_error window_0_100 _ _ 30 45 [30; 45]
                                           Hincl).
  reflexivity.
Defined.

(** ** The change handler *)

(** A committed change is not validated and carries two timestamps: with
    the callback supplied, [onChange] makes one call, with the first two
    input timestamps converted, whatever follows them in the input;
    without it, no call is made. *)
Lemma change_passes_first_two :
  forall (t0 t1 : Z) (rest : list Z),
    onChange true (t0 :: t1 :: rest)
    = [ (Some (Date_of_ms t0), Some (Date_of_ms t1)) ]
    /\ onChange true (t0 :: t1 :: rest) = onChange true [t0; t1]
    /\ onChange false (t0 :: t1 :: rest) = [].
Proof.
  intros t0 t1 rest. repeat split.
Qed.

(** ** The earlier component and the typed one *)

Lemma legacy_mapi_from (startTime endTime : Date) (len : Z)
    (l : list Interval.t) :
  forall i,
    mapi_from (Legacy.formatBlockedInterval
                 (Legacy.getTimelineConfig startTime len) startTime endTime)
              i (map legacy_interval l)
    = map legacy_track
          (mapi_from (formatBlockedInterval
                        (getTimelineConfig startTime len) startTime endTime)
                     i l).
Proof.
  induction l as [|iv l IH]; intros i; cbn [map mapi_from]; [reflexivity|].
  now rewrite IH.
Qed.

(** X21: the typed clipper refines the earlier one.  On the same window
    and the same intervals the two return the same tracks (same order, same
    track ids, same percents and values) once the point ids, which only the
    typed component has, are forgotten; both return [null] for an empty or
    absent list. *)
Theorem legacy_clipper_agrees :
  forall (blocked : option (list Interval.t)) (window : Date * Date),
    Legacy.getFormattedBlockedIntervals
      (option_map (map legacy_interval) blocked) (Some window)
    = Legacy.Returns
        (option_map (map legacy_track)
                    (getFormattedBlockedIntervals blocked window)).
Proof.
  intros blocked [startTime endTime].
  unfold Legacy.getFormattedBlockedIntervals, getFormattedBlockedIntervals.
  destruct blocked as [[|iv l]|]; try reflexivity.
  cbn [option_map map]. unfold mapi. now rewrite <- legacy_mapi_from.
Qed.

Lemma legacy_existsb (s e : Z) (tracks : list Track.t) :
  existsb (fun tr => Legacy.checkIsSelectedIntervalNotValid
                       [s; e] (Legacy.Track.source tr)
                       (Legacy.Track.target tr))
          (map legacy_track tracks)
  = existsb (fun tr => checkIsSelectedIntervalNotValid
                         (s, e) (Track.source tr) (Track.target tr))
            tracks.
Proof.
  induction tracks as [|tr tracks IH]; [reflexivity|].
  cbn [map existsb]. now rewrite IH.
Qed.

Lemma legacy_existsb_short (newTime : list Z) (tracks : list Legacy.Track.t) :
  (List.length newTime < 2)%nat ->
  existsb (fun tr => Legacy.checkIsSelectedIntervalNotValid
                       newTime (Legacy.Track.source tr)
                       (Legacy.Track.target tr))
          tracks = false.
Proof.
  intros Hlen. induction tracks as [|tr tracks IH]; [reflexivity|].
  cbn [existsb]. rewrite IH.
  destruct newTime as [|t0 [|t1 rest]]; cbn in *; [reflexivity .. | lia].
Qed.

(** X22: the typed update handler refines the earlier one.  When the
    [timelineInterval] prop is passed, the earlier handler returns
    normally and makes exactly the calls of [onUpdateCallback] that the
    typed handler makes on the same props and the same input, for inputs of
    any length. *)
Theorem legacy_update_agrees :
  forall (props : TimeRangeProps) (onChangeCallback : bool)
         (newTime : list Z),
    Legacy.onUpdate (legacy_props props onChangeCallback) newTime
    = Legacy.Returns (onUpdate props newTime).
Proof.
  intros props cb newTime.
  unfold Legacy.onUpdate, onUpdate, get_disabledIntervals, legacy_props.
  cbn [Legacy.disabledIntervals Legacy.timelineInterval
       Legacy.onUpdateCallback].
  unfold Legacy.getFormattedBlockedIntervals, getFormattedBlockedIntervals.
  destruct (timelineInterval props) as [startTime endTime].
  destruct (onUpdateCallback props), (disabledIntervals props) as [[|iv l]|];
    cbn [negb option_map map]; try reflexivity.
  unfold mapi.
  rewrite <- (map_cons legacy_interval), legacy_mapi_from.
  cbn [mapi_from map]. do 3 f_equal.
  destruct newTime as [|t0 [|t1 rest]].
  - now rewrite legacy_existsb_short by (cbn; lia).
  - now rewrite legacy_existsb_short by (cbn; lia).
  - cbn [nth_error].
    rewrite <- map_cons, <- legacy_existsb. reflexivity.
Qed.

(** X23: in the earlier component an omitted [timelineInterval] prop makes
    every update throw a [TypeError], whether or not a callback or blocked
    intervals are supplied, and a passed one never does: the handler
    throws exactly when the prop is omitted, and then makes no call. *)
Theorem legacy_update_throws_iff_window_omitted :
  forall (props : Legacy.TimeRangeProps) (newTime : list Z),
    (Legacy.onUpdate props newTime = Legacy.Throws Legacy.TypeError
     <-> Legacy.timelineInterval props = None)
    /\ (Legacy.timelineInterval props <> None
        <-> exists calls, Legacy.onUpdate props newTime
                          = Legacy.Returns calls).
Proof.
  intros props newTime.
  unfold Legacy.onUpdate, Legacy.getFormattedBlockedIntervals.
  destruct (Legacy.timelineInterval props) as [[startTime endTime]|].
  - destruct (match Legacy.disabledIntervals props with
              | Some l => l | None => [] end) as [|iv l],
             (Legacy.onUpdateCallback props); cbn;
      (split; split;
       [discriminate | discriminate
        | intros _; eexists; reflexivity | discriminate]).
  - split; split.
    + reflexivity.
    + reflexivity.
    + intros H. now contradiction H.
    + intros [calls H]. discriminate H.
Qed.
